(** * TensorTest.c: the native flat tensor buffer of reversiai

    A shallow embedding of [src/main/de/rwth/reversiai/experiments/TensorTest.c]:
    four globals ([data], [width], [height], [depth]) and the three JNI entry
    points that allocate the buffer, read a cell and write a cell.

    - [jint] values are integers in the range of [int32]; the C [int]
      arithmetic of the index expression and of the allocation size is written
      with its 32-bit two's-complement wrap-around ([wrap32]).
    - [jbyte] cells are [Byte.byte]; the region [data] points to is a list of
      bytes, [None] standing for the null pointer.
    - the entry points are computations in a state-and-undefinedness monad
      over the globals: an access outside the region [data] points to has
      no defined result ([None]).
    - [malloc] may fail and says nothing about the contents of what it
      returns: its outcome is an explicit argument, the [allocator]. *)

From Stdlib Require Import ZArith Lia.
From Stdlib.Strings Require Import Byte.
From stdpp Require Import base numbers option list.

Local Open Scope Z_scope.

(** ** 32-bit integers *)

Module Int32.

Definition modulus : Z := 2 ^ 32.
Definition half_modulus : Z := 2 ^ 31.

(** The values a [jint] / [int32_t] can hold. *)
Definition int32 (z : Z) : Prop := - half_modulus <= z < half_modulus.

(** Reduction of an integer to its 32-bit two's-complement value. *)
Definition wrap32 (z : Z) : Z := (z + half_modulus) mod modulus - half_modulus.

Definition add32 (a b : Z) : Z := wrap32 (a + b).
Definition mul32 (a b : Z) : Z := wrap32 (a * b).

(** Conversion of an [int] to [size_t] (64 bits wide), as done for the
    argument of [malloc]. *)
Definition to_size_t (z : Z) : Z := z mod 2 ^ 64.

End Int32.
Export Int32.

(** ** The globals *)

Record state : Type := mkState {
  data : option (list byte);   (* int8_t *data : null, or the region it points to *)
  width : Z;                   (* int32_t width  *)
  height : Z;                  (* int32_t height *)
  depth : Z                    (* int32_t depth  *)
}.

(** Objects of static storage duration start zeroed: [data] is null. *)
Definition initial_state : state :=
  {| data := None; width := 0; height := 0; depth := 0 |}.

(** ** The monad of the entry points *)

Definition M (A : Type) : Type := state -> option (A * state).

Definition ret {A} (a : A) : M A := fun s => Some (a, s).

Definition bind {A B} (m : M A) (f : A -> M B) : M B :=
  fun s => match m s with
           | Some (a, s') => f a s'
           | None => None
           end.

Notation "'let*' x ':=' m 'in' k" := (bind m (fun x => k))
  (at level 10, x name, m at level 100, k at level 200).
Notation "m ';;' k" := (bind m (fun _ => k))
  (at level 100, k at level 200, right associativity).

(** Reading a global. *)
Definition read {A} (g : state -> A) : M A := fun s => Some (g s, s).

(** Assignments to the globals. *)
Definition assign_width (w : Z) : M unit :=
  fun s => Some (tt, {| data := data s; width := w; height := height s; depth := depth s |}).
Definition assign_height (h : Z) : M unit :=
  fun s => Some (tt, {| data := data s; width := width s; height := h; depth := depth s |}).
Definition assign_depth (d : Z) : M unit :=
  fun s => Some (tt, {| data := data s; width := width s; height := height s; depth := d |}).
Definition assign_data (p : option (list byte)) : M unit :=
  fun s => Some (tt, {| data := p; width := width s; height := height s; depth := depth s |}).

(** [data[off]] as an rvalue: defined when [data] is not null and [off]
    falls inside the region. *)
Definition load (off : Z) : M byte :=
  fun s => match data s with
           | None => None
           | Some l =>
               if bool_decide (0 <= off)
               then match l !! Z.to_nat off with
                    | Some b => Some (b, s)
                    | None => None
                    end
               else None
           end.

(** [data[off] = v]: same domain as [load]; the cell is updated in place. *)
Definition store (off : Z) (v : byte) : M unit :=
  fun s => match data s with
           | None => None
           | Some l =>
               if bool_decide (0 <= off < Z.of_nat (length l))
               then Some (tt, {| data := Some (<[Z.to_nat off := v]> l);
                                 width := width s; height := height s; depth := depth s |})
               else None
           end.

(** What one call of [malloc] does, as far as the program can tell: it fails
    ([None]) or hands out a region whose cell [n] holds [fill n]. *)
Definition allocator : Type := option (nat -> byte).

Definition block (a : allocator) (size : Z) : option (list byte) :=
  match a with
  | None => None
  | Some fill => Some (fill <$> seq 0 (Z.to_nat size))
  end.

Definition malloc (a : allocator) (size : Z) : M (option (list byte)) :=
  ret (block a size).

(** ** The entry points *)

(** The three assignments, then [data = malloc( width * height * depth )]:
    the product is an [int], converted to [size_t] for the call; the result
    of [malloc] is stored unchecked. *)
Definition Java_de_rwth_reversiai_experiments_TensorTest_initNativeFlatArray
  (a : allocator) (w h d : Z) : M unit :=
  assign_width w ;;
  assign_height h ;;
  assign_depth d ;;
  let* w' := read width in
  let* h' := read height in
  let* d' := read depth in
  let* p := malloc a (to_size_t (mul32 (mul32 w' h') d')) in
  assign_data p.

(** [return data[ k + j * depth + i * depth * height ]] *)
Definition Java_de_rwth_reversiai_experiments_TensorTest_getNativeFlatArray
  (i j k : Z) : M byte :=
  let* d := read depth in
  let* h := read height in
  load (add32 (add32 k (mul32 j d)) (mul32 (mul32 i d) h)).

(** [data[ k + j * depth + i * depth * height ] = value] *)
Definition Java_de_rwth_reversiai_experiments_TensorTest_setNativeFlatArray
  (i j k : Z) (value : byte) : M unit :=
  let* d := read depth in
  let* h := read height in
  store (add32 (add32 k (mul32 j d)) (mul32 (mul32 i d) h)) value.

(** The entry points under the names of the Java [native] methods. *)
Abbreviation initNativeFlatArray :=
  Java_de_rwth_reversiai_experiments_TensorTest_initNativeFlatArray.
Abbreviation getNativeFlatArray :=
  Java_de_rwth_reversiai_experiments_TensorTest_getNativeFlatArray.
Abbreviation setNativeFlatArray :=
  Java_de_rwth_reversiai_experiments_TensorTest_setNativeFlatArray.

(** ** Vocabulary of the specification *)

(** The index expression of [get] and [set], in the [int] arithmetic of C, on
    the extents of [s]. *)
Definition offset (s : state) (i j k : Z) : Z :=
  add32 (add32 k (mul32 j (depth s))) (mul32 (mul32 i (depth s)) (height s)).

(** The same formula over the unbounded integers. *)
Definition offset_Z (s : state) (i j k : Z) : Z :=
  k + j * depth s + i * depth s * height s.

(** The allocation size, [width * height * depth] as an [int]. *)
Definition extent_product (s : state) : Z :=
  mul32 (mul32 (width s) (height s)) (depth s).

(** The number of cells of a grid with the extents of [s]. *)
Definition volume (s : state) : Z := width s * height s * depth s.

Definition in_bounds (s : state) (i j k : Z) : Prop :=
  0 <= i < width s /\ 0 <= j < height s /\ 0 <= k < depth s.

(** The storage of [s] is a region of exactly [n] bytes. *)
Definition holds_cells (s : state) (n : Z) : Prop :=
  exists l, data s = Some l /\ Z.of_nat (length l) = n.

(** Offsets at which an access is defined: those inside the region. *)
Definition in_range (s : state) (off : Z) : Prop :=
  exists l, data s = Some l /\ 0 <= off < Z.of_nat (length l).

(** When there is a region, it has the size that was asked of [malloc]. *)
Definition storage_inv (s : state) : Prop :=
  forall l, data s = Some l -> Z.of_nat (length l) = to_size_t (extent_product s).

(** Writing [v] at [(i,j,k)] and reading the same coordinate back gives [v]. *)
Definition round_trip (s : state) (i j k : Z) (v : byte) : Prop :=
  exists s', (setNativeFlatArray i j k v ;; getNativeFlatArray i j k) s = Some (v, s').

(** The globals after a call of [initNativeFlatArray] (which always returns). *)
Definition after_init (a : allocator) (w h d : Z) (s : state) : state :=
  match initNativeFlatArray a w h d s with
  | Some (_, s') => s'
  | None => s
  end.

(** Two outcomes of [malloc] used in the examples: a region of zero bytes and
    a region of [0xff] bytes. *)
Definition zeros : allocator := Some (fun _ => x00).
Definition ones : allocator := Some (fun _ => xff).

(** The outcome of [malloc] that hands out a region holding [l]. *)
Definition contents (l : list byte) : allocator :=
  Some (fun n => default x00 (l !! n)).

(** The calls a client can make, and the transitions of the globals. *)
Inductive call : Type :=
| Init (w h d : Z)
| Get (i j k : Z)
| Set_ (i j k : Z) (value : byte).

Inductive result : Type :=
| RVoid
| RByte (b : byte).

Inductive step : state -> call -> result -> state -> Prop :=
| step_init a s w h d s' :
    int32 w -> int32 h -> int32 d ->
    initNativeFlatArray a w h d s = Some (tt, s') ->
    step s (Init w h d) RVoid s'
| step_get s i j k b s' :
    int32 i -> int32 j -> int32 k ->
    getNativeFlatArray i j k s = Some (b, s') ->
    step s (Get i j k) (RByte b) s'
| step_set s i j k v s' :
    int32 i -> int32 j -> int32 k ->
    setNativeFlatArray i j k v s = Some (tt, s') ->
    step s (Set_ i j k v) RVoid s'.

(** States the program can be in. *)
Inductive reachable : state -> Prop :=
| reachable_start : reachable initial_state
| reachable_step s c r s' : reachable s -> step s c r s' -> reachable s'.

(** The buffer is initialized: the latest [initNativeFlatArray] obtained a
    region from [malloc], and only writes happened since. *)
Inductive initialized : state -> Prop :=
| initialized_init fill s w h d s' :
    int32 w -> int32 h -> int32 d ->
    initNativeFlatArray (Some fill) w h d s = Some (tt, s') ->
    initialized s'
| initialized_set s i j k v s' :
    initialized s ->
    setNativeFlatArray i j k v s = Some (tt, s') ->
    initialized s'.

(** ** Clients of the entry points *)

(** One write of a client: a coordinate and the byte to store there. *)
Definition cell_write : Type := Z * Z * Z * byte.

Definition write_in_bounds (s : state) (w : cell_write) : Prop :=
  let '(i, j, k, _) := w in in_bounds s i j k.

(** A client calling [setNativeFlatArray] once per write, in order. *)
Fixpoint set_all (ws : list cell_write) : M unit :=
  match ws with
  | [] => ret tt
  | w :: ws' =>
      let '(i, j, k, v) := w in
      setNativeFlatArray i j k v ;; set_all ws'
  end.

(** The byte the latest write of [ws] to the coordinate [c] stored, if any. *)
Fixpoint last_write (ws : list cell_write) (c : Z * Z * Z) : option byte :=
  match ws with
  | [] => None
  | w :: ws' =>
      let '(i, j, k, v) := w in
      match last_write ws' c with
      | Some v' => Some v'
      | None => if decide ((i, j, k) = c) then Some v else None
      end
  end.

(** Lexicographic order on coordinates, first axis most significant. *)
Definition lex_lt (c c' : Z * Z * Z) : Prop :=
  let '(i, j, k) := c in
  let '(i', j', k') := c' in
  i < i' \/ (i = i' /\ (j < j' \/ (j = j' /\ k < k'))).

(** The coordinate of the cell at linear index [n] in a grid with the
    extents of [s]. *)
Definition cell_coords (s : state) (n : Z) : Z * Z * Z :=
  (n / (depth s * height s), (n / depth s) mod height s, n mod depth s).

(** * Properties *)

(** ** Arithmetic of [wrap32] *)

Section Wrap.

Lemma wrap32_range z : int32 (wrap32 z).
Proof.
  unfold int32, wrap32, modulus, half_modulus.
  pose proof (Z.mod_pos_bound (z + 2 ^ 31) (2 ^ 32) ltac:(lia)). lia.
Qed.

Lemma wrap32_id z : int32 z -> wrap32 z = z.
Proof.
  unfold int32, wrap32, modulus, half_modulus. intros Hz.
  rewrite Z.mod_small by lia. lia.
Qed.

(** [wrap32] only depends on the residue modulo [2^32]. *)
Lemma wrap32_congr a b : a mod modulus = b mod modulus -> wrap32 a = wrap32 b.
Proof.
  unfold wrap32. intros E.
  rewrite <- (Zplus_mod_idemp_l a), <- (Zplus_mod_idemp_l b), E. reflexivity.
Qed.

Lemma wrap32_mod z : wrap32 z mod modulus = z mod modulus.
Proof.
  unfold wrap32, modulus, half_modulus.
  rewrite Zminus_mod_idemp_l. f_equal. lia.
Qed.

Lemma wrap32_eq_mod a b : wrap32 a = wrap32 b -> a mod modulus = b mod modulus.
Proof. intros E. rewrite <- (wrap32_mod a), <- (wrap32_mod b), E. reflexivity. Qed.

Lemma add32_wrap_l a b : add32 (wrap32 a) b = wrap32 (a + b).
Proof.
  unfold add32. apply wrap32_congr.
  rewrite <- Zplus_mod_idemp_l, wrap32_mod, Zplus_mod_idemp_l. reflexivity.
Qed.

Lemma add32_wrap_r a b : add32 a (wrap32 b) = wrap32 (a + b).
Proof.
  unfold add32. apply wrap32_congr.
  rewrite <- Zplus_mod_idemp_r, wrap32_mod, Zplus_mod_idemp_r. reflexivity.
Qed.

Lemma mul32_wrap_l a b : mul32 (wrap32 a) b = wrap32 (a * b).
Proof.
  unfold mul32. apply wrap32_congr.
  rewrite <- Zmult_mod_idemp_l, wrap32_mod, Zmult_mod_idemp_l. reflexivity.
Qed.

Lemma to_size_t_id z : 0 <= z < 2 ^ 31 -> to_size_t z = z.
Proof. intros Hz. unfold to_size_t. apply Z.mod_small. lia. Qed.

Lemma to_size_t_int32 z : int32 z -> 0 <= z -> to_size_t z = z.
Proof. unfold int32, half_modulus. intros. apply to_size_t_id. lia. Qed.

Lemma mul32_range a b : int32 (mul32 a b).
Proof. apply wrap32_range. Qed.

Lemma to_size_t_nonneg z : 0 <= to_size_t z.
Proof. unfold to_size_t. apply Z.mod_pos_bound. lia. Qed.

End Wrap.

(** ** The index expression *)

Section Offset.

Variable s : state.

(** The [int] expression is the 32-bit value of the formula. *)
Lemma offset_wrap i j k : offset s i j k = wrap32 (offset_Z s i j k).
Proof.
  unfold offset, offset_Z.
  replace (mul32 (mul32 i (depth s)) (height s)) with (wrap32 (i * depth s * height s))
    by (symmetry; apply mul32_wrap_l).
  unfold mul32.
  rewrite (add32_wrap_r k), (add32_wrap_l (k + j * depth s)).
  fold (add32 (k + j * depth s) (wrap32 (i * depth s * height s))).
  apply add32_wrap_r.
Qed.

Lemma offset_exact i j k : int32 (offset_Z s i j k) -> offset s i j k = offset_Z s i j k.
Proof. intros H. rewrite offset_wrap. apply wrap32_id, H. Qed.

Lemma extent_product_wrap : extent_product s = wrap32 (volume s).
Proof. unfold extent_product, volume. unfold mul32 at 2. apply mul32_wrap_l. Qed.

(** Row-major addressing stays inside the grid. *)
Lemma offset_Z_bounds i j k : in_bounds s i j k -> 0 <= offset_Z s i j k < volume s.
Proof.
  unfold in_bounds, offset_Z, volume. intros (Hi & Hj & Hk).
  assert (0 <= j * depth s) by nia.
  assert (0 <= i * depth s) by nia.
  assert (0 <= i * depth s * height s) by nia.
  assert (j * depth s + k + 1 <= height s * depth s) by nia.
  assert (0 <= (width s - (i + 1)) * (height s * depth s)) by nia.
  split; [lia | nia].
Qed.

(** Splitting an offset into a digit below [d] and the rest. *)
Lemma digit_unique d a b a' b' :
  0 <= a < d -> 0 <= a' < d -> a + b * d = a' + b' * d -> a = a' /\ b = b'.
Proof.
  intros Ha Ha' E.
  assert (b = b') by nia. subst b'. lia.
Qed.

Lemma offset_Z_inj i j k i' j' k' :
  in_bounds s i j k -> in_bounds s i' j' k' ->
  offset_Z s i j k = offset_Z s i' j' k' -> i = i' /\ j = j' /\ k = k'.
Proof.
  unfold in_bounds, offset_Z. intros (Hi & Hj & Hk) (Hi' & Hj' & Hk') E.
  destruct (digit_unique (depth s) k (j + i * height s) k' (j' + i' * height s))
    as [-> E2]; [lia | lia | lia |].
  destruct (digit_unique (height s) j i j' i') as [-> ->]; [lia | lia | lia |].
  auto.
Qed.

End Offset.

(** ** What the entry points compute *)

Section Runs.

Lemma init_run a w h d s :
  initNativeFlatArray a w h d s =
  Some (tt, {| data := block a (to_size_t (mul32 (mul32 w h) d));
               width := w; height := h; depth := d |}).
Proof. reflexivity. Qed.

Lemma get_run i j k s : getNativeFlatArray i j k s = load (offset s i j k) s.
Proof. reflexivity. Qed.

Lemma set_run i j k v s : setNativeFlatArray i j k v s = store (offset s i j k) v s.
Proof. reflexivity. Qed.

Lemma block_length fill n l :
  0 <= n -> block (Some fill) n = Some l -> Z.of_nat (length l) = n.
Proof.
  intros Hn [= <-]. rewrite length_fmap, length_seq. lia.
Qed.

Lemma load_inv off s b s' :
  load off s = Some (b, s') ->
  s' = s /\ exists l, data s = Some l /\ 0 <= off < Z.of_nat (length l)
                      /\ l !! Z.to_nat off = Some b.
Proof.
  unfold load. destruct (data s) as [l|]; [|discriminate].
  case_bool_decide as Hoff; [|discriminate].
  destruct (l !! Z.to_nat off) as [b'|] eqn:E; [|discriminate].
  intros [= <- <-]. split; [reflexivity|]. exists l.
  pose proof (lookup_lt_Some _ _ _ E). repeat split; auto; lia.
Qed.

Lemma load_in_range l off s :
  data s = Some l -> 0 <= off < Z.of_nat (length l) ->
  exists b, l !! Z.to_nat off = Some b /\ load off s = Some (b, s).
Proof.
  intros Hd Hoff. unfold load. rewrite Hd, bool_decide_eq_true_2 by lia.
  destruct (lookup_lt_is_Some_2 l (Z.to_nat off)) as [b E]; [lia|].
  exists b. rewrite E. auto.
Qed.

Lemma store_inv off v s u s' :
  store off v s = Some (u, s') ->
  exists l, data s = Some l /\ 0 <= off < Z.of_nat (length l)
            /\ s' = {| data := Some (<[Z.to_nat off := v]> l);
                       width := width s; height := height s; depth := depth s |}.
Proof.
  unfold store. destruct (data s) as [l|]; [|discriminate].
  case_bool_decide as Hoff; [|discriminate].
  intros [= <- <-]. exists l. auto.
Qed.

Lemma store_in_range l off v s :
  data s = Some l -> 0 <= off < Z.of_nat (length l) ->
  store off v s = Some (tt, {| data := Some (<[Z.to_nat off := v]> l);
                               width := width s; height := height s; depth := depth s |}).
Proof.
  intros Hd Hoff. unfold store. rewrite Hd, bool_decide_eq_true_2 by lia. reflexivity.
Qed.

Lemma load_None off s : load off s = None <-> ~ in_range s off.
Proof.
  split.
  - intros E (l & Hd & Hoff).
    destruct (load_in_range l off s Hd Hoff) as (b & _ & E'). congruence.
  - intros Hn. destruct (load off s) as [[b s']|] eqn:E; [|reflexivity].
    apply load_inv in E as (_ & l & Hd & Hoff & _). destruct Hn. exists l. auto.
Qed.

Lemma store_None off v s : store off v s = None <-> ~ in_range s off.
Proof.
  split.
  - intros E (l & Hd & Hoff). rewrite (store_in_range l off v s Hd Hoff) in E. discriminate.
  - intros Hn. destruct (store off v s) as [[u s']|] eqn:E; [|reflexivity].
    apply store_inv in E as (l & Hd & Hoff & _). destruct Hn. exists l. auto.
Qed.

End Runs.

(** ** The storage invariant *)

Section Invariant.

Lemma init_storage_inv a w h d s s' :
  initNativeFlatArray a w h d s = Some (tt, s') -> storage_inv s'.
Proof.
  rewrite init_run. intros [= <-] l. simpl. destruct a as [fill|]; [|discriminate].
  apply block_length, to_size_t_nonneg.
Qed.

Lemma set_storage_inv i j k v s s' :
  setNativeFlatArray i j k v s = Some (tt, s') -> storage_inv s -> storage_inv s'.
Proof.
  rewrite set_run. intros E Hs. apply store_inv in E as (l & Hd & _ & ->).
  intros l' [= <-]. rewrite length_insert. apply Hs, Hd.
Qed.

Lemma get_state i j k s b s' :
  getNativeFlatArray i j k s = Some (b, s') -> s' = s.
Proof. rewrite get_run. intros E. apply load_inv in E as [-> _]. reflexivity. Qed.

Lemma step_storage_inv s c r s' : step s c r s' -> storage_inv s -> storage_inv s'.
Proof.
  intros [a s0 w h d s1 _ _ _ E | s0 i j k b s1 _ _ _ E | s0 i j k v s1 _ _ _ E] Hs.
  - eapply init_storage_inv, E.
  - apply get_state in E as ->. exact Hs.
  - eapply set_storage_inv; eauto.
Qed.

Lemma reachable_storage_inv s : reachable s -> storage_inv s.
Proof.
  induction 1 as [|s c r s' _ IH Hstep].
  - intros l. discriminate.
  - eapply step_storage_inv; eauto.
Qed.

Lemma initialized_holds s : initialized s -> holds_cells s (to_size_t (extent_product s)).
Proof.
  induction 1 as [fill s w h d s' _ _ _ E | s i j k v s' _ IH E].
  - pose proof (init_storage_inv _ _ _ _ _ _ E) as Hinv.
    rewrite init_run in E. injection E as <-. simpl in *.
    eexists. split; [reflexivity|]. apply (Hinv _ eq_refl).
  - destruct IH as (l & Hd & Hlen).
    rewrite set_run in E. apply store_inv in E as (l0 & Hd0 & _ & ->).
    rewrite Hd in Hd0. injection Hd0 as <-.
    exists (<[Z.to_nat (offset s i j k) := v]> l). split; [reflexivity|].
    rewrite length_insert. exact Hlen.
Qed.

(** For a grid whose cell count fits an [int], the allocation size is the
    cell count. *)
Lemma extent_product_volume s :
  0 <= volume s < half_modulus -> extent_product s = volume s.
Proof.
  intros H. rewrite extent_product_wrap. apply wrap32_id.
  unfold int32, half_modulus in *. lia.
Qed.

Lemma in_bounds_volume_pos s i j k : in_bounds s i j k -> 0 < volume s.
Proof. intros H. pose proof (offset_Z_bounds s i j k H). lia. Qed.

(** On an initialized buffer without overflow, every coordinate inside the
    grid is a cell of the region. *)
Lemma in_bounds_in_range s i j k :
  initialized s -> volume s < half_modulus -> in_bounds s i j k ->
  offset s i j k = offset_Z s i j k
  /\ exists l, data s = Some l /\ Z.of_nat (length l) = volume s
               /\ 0 <= offset s i j k < Z.of_nat (length l).
Proof.
  intros Hinit Hvol Hin.
  pose proof (offset_Z_bounds s i j k Hin) as Hoff.
  assert (Hexact : offset s i j k = offset_Z s i j k).
  { apply offset_exact. unfold int32, half_modulus in *. lia. }
  split; [exact Hexact|].
  destruct (initialized_holds s Hinit) as (l & Hd & Hlen).
  rewrite extent_product_volume, to_size_t_id in Hlen
    by (unfold half_modulus in *; lia).
  exists l. rewrite Hexact, Hlen. auto.
Qed.

End Invariant.

(** ** Concrete runs *)

Section Examples.

Lemma after_init_run a w h d s :
  initNativeFlatArray a w h d s = Some (tt, after_init a w h d s).
Proof. reflexivity. Qed.

Lemma after_init_initialized fill w h d s :
  int32 w -> int32 h -> int32 d -> initialized (after_init (Some fill) w h d s).
Proof.
  intros Hw Hh Hd.
  exact (initialized_init fill s w h d _ Hw Hh Hd (after_init_run _ _ _ _ _)).
Qed.

Lemma small_int32 z : -2147483648 <= z < 2147483648 -> int32 z.
Proof. unfold int32, half_modulus. lia. Qed.

Lemma data_after_init a w h d s :
  data (after_init a w h d s) = block a (to_size_t (mul32 (mul32 w h) d)).
Proof. reflexivity. Qed.

Lemma extent_product_after_init a w h d s :
  extent_product (after_init a w h d s) = mul32 (mul32 w h) d.
Proof. reflexivity. Qed.

Lemma volume_after_init a w h d s : volume (after_init a w h d s) = w * h * d.
Proof. reflexivity. Qed.

Lemma after_init_holds fill w h d s :
  holds_cells (after_init (Some fill) w h d s) (to_size_t (mul32 (mul32 w h) d)).
Proof.
  exists (fill <$> seq 0 (Z.to_nat (to_size_t (mul32 (mul32 w h) d)))).
  split; [apply data_after_init|].
  apply (block_length fill); [apply to_size_t_nonneg | reflexivity].
Qed.

Lemma nonneg_volume w h d : 0 <= w -> 0 <= h -> 0 <= d -> 0 <= w * h * d.
Proof. intros. assert (0 <= w * h) by nia. nia. Qed.

Lemma size_exact w h d :
  0 <= w * h * d < half_modulus -> to_size_t (mul32 (mul32 w h) d) = w * h * d.
Proof.
  intros H. unfold mul32 at 2. rewrite mul32_wrap_l, wrap32_id, to_size_t_id;
    unfold int32, half_modulus in *; lia.
Qed.

(** Any region can come out of [malloc]. *)
Lemma block_contents l : block (contents l) (Z.of_nat (length l)) = Some l.
Proof.
  unfold block, contents. f_equal. rewrite Nat2Z.id.
  apply list_eq. intros n. rewrite list_lookup_fmap.
  destruct (decide (n < length l)%nat) as [Hlt|Hge].
  - rewrite lookup_seq_lt by exact Hlt. simpl.
    destruct (lookup_lt_is_Some_2 l n Hlt) as [b ->]. reflexivity.
  - rewrite lookup_seq_ge by lia. simpl. symmetry. apply lookup_ge_None. lia.
Qed.

End Examples.

(** ** The claims *)

(** C1, as amended. For every state, [getNativeFlatArray i j k] and
    [setNativeFlatArray i j k value] address the cell of the storage whose
    index is the 32-bit [int] value of [k + j*depth + i*depth*height]:
    whenever that index lies inside the region, [get] returns the element at
    that index and [set] replaces the element at that index. The index is the
    value of the formula itself whenever that value fits an [int]; with
    extents 2, 3, 4 the coordinate (1,2,3) is linear index 23. *)
Theorem C1_get_set_address_offset (s : state) (i j k : Z) (v : byte) :
  (forall l, data s = Some l -> 0 <= offset s i j k < Z.of_nat (length l) ->
     getNativeFlatArray i j k s
       = (fun b => (b, s)) <$> (l !! Z.to_nat (offset s i j k))
     /\ setNativeFlatArray i j k v s
       = Some (tt, {| data := Some (<[Z.to_nat (offset s i j k) := v]> l);
                      width := width s; height := height s; depth := depth s |}))
  /\ offset s i j k = wrap32 (k + j * depth s + i * depth s * height s)
  /\ (int32 (k + j * depth s + i * depth s * height s) ->
      offset s i j k = k + j * depth s + i * depth s * height s)
  /\ (width s = 2 -> height s = 3 -> depth s = 4 -> offset s 1 2 3 = 23).
Proof.
  repeat split.
  - rewrite get_run.
    destruct (load_in_range l _ s H H0) as (b & -> & ->). reflexivity.
  - rewrite set_run. apply store_in_range; assumption.
  - apply offset_wrap.
  - apply offset_exact.
  - intros _ Hh Hd. unfold offset. rewrite Hh, Hd. reflexivity.
Qed.

Lemma C1_get_set_address_offset_witness :
  offset (after_init zeros 2 3 4 initial_state) 1 2 3 = 23
  /\ setNativeFlatArray 1 2 3 x07 (after_init zeros 2 3 4 initial_state)
     = Some (tt, {| data := Some (<[23%nat := x07]> (replicate 24 x00));
                    width := 2; height := 3; depth := 4 |})
  /\ getNativeFlatArray 1 2 3 (after_init zeros 2 3 4 initial_state)
     = Some (x00, after_init zeros 2 3 4 initial_state).
Proof.
  destruct (C1_get_set_address_offset (after_init zeros 2 3 4 initial_state) 1 2 3 x07)
    as (Hacc & _ & Hexact & Hex).
  split; [apply Hex; reflexivity|].
  assert (Hfit : int32 (3 + 2 * 4 + 1 * 4 * 3)) by (apply small_int32; lia).
  specialize (Hexact Hfit).
  destruct (Hacc (replicate 24 x00) eq_refl) as [Hget Hset].
  { rewrite Hexact. simpl. lia. }
  split; [rewrite Hset | rewrite Hget]; reflexivity.
Defined.

(** C1, as stated, fails. After a successful [initialize(3, 1431655766, 1)]
    (a region of 2 bytes) the coordinate (2, 1431655764, 0) is inside the
    bounds and the formula [k + j*depth + i*depth*height] has the value
    [2^32] there, while the [int] expression of the code has the value 0:
    [get] returns element 0 of the storage and [set] replaces element 0, not
    an element at linear offset [2^32]. *)
Lemma C1_get_set_address_offset_counterexample :
  initialized (after_init zeros 3 1431655766 1 initial_state)
  /\ in_bounds (after_init zeros 3 1431655766 1 initial_state) 2 1431655764 0
  /\ 0 + 1431655764 * depth (after_init zeros 3 1431655766 1 initial_state)
       + 2 * depth (after_init zeros 3 1431655766 1 initial_state)
           * height (after_init zeros 3 1431655766 1 initial_state) = 4294967296
  /\ offset (after_init zeros 3 1431655766 1 initial_state) 2 1431655764 0 = 0
  /\ setNativeFlatArray 2 1431655764 0 x07 (after_init zeros 3 1431655766 1 initial_state)
     = Some (tt, {| data := Some [x07; x00];
                    width := 3; height := 1431655766; depth := 1 |})
  /\ getNativeFlatArray 2 1431655764 0
       {| data := Some [x07; x01]; width := 3; height := 1431655766; depth := 1 |}
     = Some (x07, {| data := Some [x07; x01];
                     width := 3; height := 1431655766; depth := 1 |})
  /\ ~ (forall s i j k,
          offset s i j k = k + j * depth s + i * depth s * height s).
Proof.
  split; [apply after_init_initialized; apply small_int32; lia|].
  split; [unfold in_bounds; simpl; lia|].
  split; [reflexivity|]. split; [reflexivity|].
  split; [reflexivity|]. split; [reflexivity|].
  intros H.
  specialize (H (after_init zeros 3 1431655766 1 initial_state) 2 1431655764 0).
  change (0 = 4294967296) in H. discriminate.
Qed.

(** C2, as amended. For every initialized state whose cell count
    [width*height*depth] fits an [int] (is below [2^31]), every coordinate
    inside the grid and every byte [v], [set(i,j,k,v)] followed by
    [get(i,j,k)] returns [v]. *)
Theorem C2_round_trip (s : state) (i j k : Z) (v : byte) :
  initialized s -> volume s < half_modulus -> in_bounds s i j k ->
  round_trip s i j k v.
Proof.
  intros Hinit Hvol Hin.
  destruct (in_bounds_in_range s i j k Hinit Hvol Hin) as (_ & l & Hd & _ & Hoff).
  unfold round_trip, bind.
  rewrite set_run, (store_in_range l _ v s Hd Hoff).
  rewrite get_run. unfold offset at 1. simpl. fold (offset s i j k).
  eexists. unfold load. simpl.
  rewrite bool_decide_eq_true_2 by lia.
  rewrite list_lookup_insert_eq by lia. reflexivity.
Qed.

Lemma C2_round_trip_witness :
  initialized (after_init zeros 2 3 4 initial_state)
  /\ in_bounds (after_init zeros 2 3 4 initial_state) 1 2 3
  /\ round_trip (after_init zeros 2 3 4 initial_state) 1 2 3 x07.
Proof.
  assert (Hinit : initialized (after_init zeros 2 3 4 initial_state)).
  { apply after_init_initialized; apply small_int32; lia. }
  assert (Hin : in_bounds (after_init zeros 2 3 4 initial_state) 1 2 3).
  { unfold in_bounds. simpl. lia. }
  split; [exact Hinit|]. split; [exact Hin|].
  apply (C2_round_trip _ 1 2 3 x07 Hinit); [vm_compute; reflexivity | exact Hin].
Defined.

(** C2, as stated, fails: [initNativeFlatArray(3, 1431655766, 1)] computes the
    size [3 * 1431655766 * 1 = 2^32 + 2] as the [int] 2 and obtains a region
    of 2 bytes; the coordinate (0,2,0) is inside the grid, its offset 2 is
    outside the region, so the write has no defined result and there is
    nothing to read back. Nor is there anything to write to after an
    [initNativeFlatArray(2,3,4)] whose allocation failed. *)
Lemma C2_round_trip_counterexample :
  (initialized (after_init zeros 3 1431655766 1 initial_state)
   /\ in_bounds (after_init zeros 3 1431655766 1 initial_state) 0 2 0
   /\ data (after_init zeros 3 1431655766 1 initial_state) = Some [x00; x00]
   /\ offset (after_init zeros 3 1431655766 1 initial_state) 0 2 0 = 2
   /\ ~ round_trip (after_init zeros 3 1431655766 1 initial_state) 0 2 0 x07)
  /\ (in_bounds (after_init None 2 3 4 initial_state) 1 2 3
      /\ ~ round_trip (after_init None 2 3 4 initial_state) 1 2 3 x07).
Proof.
  split.
  - split; [apply after_init_initialized; apply small_int32; lia|].
    split; [unfold in_bounds; simpl; lia|].
    split; [reflexivity|]. split; [reflexivity|].
    intros [s' E]. vm_compute in E. discriminate.
  - split; [unfold in_bounds; simpl; lia|].
    intros [s' E]. vm_compute in E. discriminate.
Qed.

(** C3, as amended. [initNativeFlatArray(w,h,d)] always returns; when the
    allocation succeeds the storage has as many bytes as the 32-bit product
    [width*height*depth] converted to [size_t]: exactly that product whenever
    it is non-negative, and exactly [w*h*d] for non-negative [w], [h], [d]
    with [w*h*d < 2^31]. In every reachable state the storage, when there is
    one, has that length. *)
Theorem C3_storage_length :
  (forall fill w h d s,
      initNativeFlatArray (Some fill) w h d s = Some (tt, after_init (Some fill) w h d s)
      /\ (0 <= extent_product (after_init (Some fill) w h d s) ->
          holds_cells (after_init (Some fill) w h d s)
                      (extent_product (after_init (Some fill) w h d s)))
      /\ (0 <= w -> 0 <= h -> 0 <= d -> w * h * d < half_modulus ->
          holds_cells (after_init (Some fill) w h d s) (w * h * d)))
  /\ (forall s, reachable s -> forall l, data s = Some l ->
        Z.of_nat (length l) = to_size_t (extent_product s)
        /\ (0 <= extent_product s -> Z.of_nat (length l) = extent_product s)
        /\ (0 <= volume s < half_modulus -> Z.of_nat (length l) = volume s)).
Proof.
  split.
  - intros fill w h d s. split; [apply after_init_run|].
    pose proof (after_init_holds fill w h d s) as Hcells. split.
    + rewrite extent_product_after_init. intros Hpos.
      rewrite to_size_t_int32 in Hcells; auto using mul32_range.
    + intros Hw Hh Hd Hfit. pose proof (nonneg_volume w h d Hw Hh Hd).
      rewrite size_exact in Hcells by lia. exact Hcells.
  - intros s Hreach l Hdata.
    pose proof (reachable_storage_inv s Hreach l Hdata) as Hlen.
    split; [exact Hlen|]. split.
    + intros Hpos. rewrite Hlen. apply to_size_t_int32; [apply mul32_range | exact Hpos].
    + intros Hvol. rewrite Hlen, (extent_product_volume s Hvol).
      apply to_size_t_id. unfold half_modulus in Hvol. lia.
Qed.

Lemma C3_storage_length_witness :
  holds_cells (after_init zeros 2 3 4 initial_state) 24
  /\ reachable (after_init zeros 2 3 4 initial_state)
  /\ data (after_init zeros 2 3 4 initial_state) = Some (replicate 24 x00)
  /\ Z.of_nat (length (replicate 24 x00)) = volume (after_init zeros 2 3 4 initial_state).
Proof.
  destruct C3_storage_length as [Hinit Hreach].
  assert (Hr : reachable (after_init zeros 2 3 4 initial_state)).
  { apply (reachable_step initial_state (Init 2 3 4) RVoid); [apply reachable_start|].
    apply (step_init zeros); try (apply small_int32; lia). apply after_init_run. }
  split.
  { destruct (Hinit (fun _ => x00) 2 3 4 initial_state) as (_ & _ & H).
    apply H; unfold half_modulus; lia. }
  split; [exact Hr|]. split; [reflexivity|].
  destruct (Hreach _ Hr (replicate 24 x00) eq_refl) as (_ & _ & H).
  apply H. rewrite volume_after_init. unfold half_modulus. lia.
Defined.

(** C3, as stated, fails. With the non-negative extents (65536, 32768, 3) the
    32-bit product is [-2^31]: whatever [malloc] does, the storage holds
    neither that many bytes nor [65536*32768*3] bytes. And when [malloc]
    fails, as it may for any size, there is no storage at all. *)
Lemma C3_storage_length_counterexample :
  (forall a,
      extent_product (after_init a 65536 32768 3 initial_state) = -2147483648
      /\ ~ holds_cells (after_init a 65536 32768 3 initial_state)
                       (extent_product (after_init a 65536 32768 3 initial_state))
      /\ ~ holds_cells (after_init a 65536 32768 3 initial_state) (65536 * 32768 * 3))
  /\ ~ holds_cells (after_init None 1 1 1 initial_state) (1 * 1 * 1).
Proof.
  split.
  - intros a.
    assert (Hp : mul32 (mul32 65536 32768) 3 = -2147483648) by (vm_compute; reflexivity).
    assert (Hs : to_size_t (-2147483648) = 18446744071562067968) by (vm_compute; reflexivity).
    rewrite extent_product_after_init, Hp. split; [reflexivity|].
    split; intros (l & Hd & Hlen).
    + lia.
    + rewrite data_after_init, Hp, Hs in Hd. destruct a as [fill|]; [|discriminate].
      apply block_length in Hd; lia.
  - intros (l & Hd & _). rewrite data_after_init in Hd. discriminate.
Qed.

(** C4, as amended. For every prior state and every [w], [h], [d],
    [initNativeFlatArray(w,h,d)] returns with [width = w], [height = h],
    [depth = d] and with the storage replaced by what [malloc] returned for
    the 32-bit product, whatever the storage was before. For non-negative
    [w], [h], [d] with [w*h*d < 2^31] a successful allocation gives a region
    of [w*h*d] bytes, and any contents of that length can come out. After a
    successful [initialize(2,2,2)] and a successful [initialize(3,3,3)] the
    buffer has 27 cells, the extents are 3, 3, 3 and every coordinate of the
    3x3x3 grid is addressed inside it with the new strides. *)
Theorem C4_initialize_replaces (a : allocator) (s : state) (w h d : Z) :
  initNativeFlatArray a w h d s = Some (tt, after_init a w h d s)
  /\ width (after_init a w h d s) = w
  /\ height (after_init a w h d s) = h
  /\ depth (after_init a w h d s) = d
  /\ data (after_init a w h d s) = block a (to_size_t (mul32 (mul32 w h) d))
  /\ (0 <= w -> 0 <= h -> 0 <= d -> w * h * d < half_modulus ->
      (forall fill, holds_cells (after_init (Some fill) w h d s) (w * h * d))
      /\ (forall l, Z.of_nat (length l) = w * h * d ->
            data (after_init (contents l) w h d s) = Some l))
  /\ (forall f1 f2 i j k,
        holds_cells (after_init (Some f2) 3 3 3 (after_init (Some f1) 2 2 2 s)) 27
        /\ (in_bounds (after_init (Some f2) 3 3 3 (after_init (Some f1) 2 2 2 s)) i j k ->
            offset (after_init (Some f2) 3 3 3 (after_init (Some f1) 2 2 2 s)) i j k
              = k + j * 3 + i * 3 * 3
            /\ in_range (after_init (Some f2) 3 3 3 (after_init (Some f1) 2 2 2 s))
                        (k + j * 3 + i * 3 * 3))).
Proof.
  repeat apply conj; try reflexivity.
  - intros Hw Hh Hd Hfit. pose proof (nonneg_volume w h d Hw Hh Hd) as Hpos. split.
    + intros fill. pose proof (after_init_holds fill w h d s) as Hcells.
      rewrite size_exact in Hcells by lia. exact Hcells.
    + intros l Hlen. rewrite data_after_init, size_exact, <- Hlen by lia.
      apply block_contents.
  - intros f1 f2 i j k.
    set (s2 := after_init (Some f2) 3 3 3 (after_init (Some f1) 2 2 2 s)).
    assert (Hcells : holds_cells s2 27) by apply (after_init_holds f2 3 3 3).
    split; [exact Hcells|]. intros Hin.
    pose proof (offset_Z_bounds s2 i j k Hin) as Hoff.
    change (volume s2) with 27 in Hoff.
    change (offset_Z s2 i j k) with (k + j * 3 + i * 3 * 3) in Hoff.
    split.
    + rewrite offset_exact; [reflexivity|].
      change (offset_Z s2 i j k) with (k + j * 3 + i * 3 * 3).
      apply small_int32. lia.
    + destruct Hcells as (l & Hd & Hlen). exists l. split; [exact Hd | lia].
Qed.

Lemma C4_initialize_replaces_witness :
  holds_cells (after_init ones 3 3 3 (after_init zeros 2 2 2 initial_state)) (3 * 3 * 3)
  /\ data (after_init (contents [x01; x02; x03; x04]) 2 2 1 initial_state)
     = Some [x01; x02; x03; x04]
  /\ getNativeFlatArray 2 2 2 (after_init ones 3 3 3 (after_init zeros 2 2 2 initial_state))
     = Some (xff, after_init ones 3 3 3 (after_init zeros 2 2 2 initial_state)).
Proof.
  split.
  { destruct (C4_initialize_replaces ones (after_init zeros 2 2 2 initial_state) 3 3 3)
      as (_ & _ & _ & _ & _ & H & _).
    apply H; unfold half_modulus; lia. }
  split.
  { destruct (C4_initialize_replaces None initial_state 2 2 1)
      as (_ & _ & _ & _ & _ & H & _).
    apply H; unfold half_modulus; simpl; lia. }
  reflexivity.
Defined.

(** C4, as stated, fails. When the second allocation fails, the state after
    [initialize(2,2,2); initialize(3,3,3)] has the new extents and no storage:
    no 27-cell buffer is addressed, and [get(2,2,2)] has no defined result.
    And for the non-negative extents (65536, 65536, 1) the 32-bit product is
    0, so a successful allocation gives a region of 0 bytes, not of
    [65536*65536*1]. *)
Lemma C4_initialize_replaces_counterexample :
  (width (after_init None 3 3 3 (after_init zeros 2 2 2 initial_state)) = 3
   /\ ~ holds_cells (after_init None 3 3 3 (after_init zeros 2 2 2 initial_state)) 27
   /\ getNativeFlatArray 2 2 2 (after_init None 3 3 3 (after_init zeros 2 2 2 initial_state))
      = None)
  /\ data (after_init zeros 65536 65536 1 initial_state) = Some []
  /\ ~ holds_cells (after_init zeros 65536 65536 1 initial_state) (65536 * 65536 * 1).
Proof.
  split; [split; [reflexivity|split; [|reflexivity]]|split; [reflexivity|]].
  - intros (l & Hd & _). discriminate.
  - intros (l & Hd & Hlen). injection Hd as <-. simpl in Hlen. lia.
Qed.

(** C5, as amended. For extents with [width*height*depth <= 2^32] the index
    expression of the code is injective on the grid: two coordinates inside
    the bounds with the same offset are the same coordinate. Over the
    unbounded integers the formula is injective for all extents. *)
Theorem C5_offset_injective (s : state) (i j k i' j' k' : Z) :
  in_bounds s i j k -> in_bounds s i' j' k' ->
  (offset_Z s i j k = offset_Z s i' j' k' -> (i, j, k) = (i', j', k'))
  /\ (volume s <= modulus ->
      offset s i j k = offset s i' j' k' -> (i, j, k) = (i', j', k')).
Proof.
  intros Hin Hin'.
  assert (Hinj : offset_Z s i j k = offset_Z s i' j' k' -> (i, j, k) = (i', j', k')).
  { intros E. destruct (offset_Z_inj s i j k i' j' k' Hin Hin' E) as (-> & -> & ->).
    reflexivity. }
  split; [exact Hinj|].
  intros Hvol E. apply Hinj.
  pose proof (offset_Z_bounds s i j k Hin) as Hb.
  pose proof (offset_Z_bounds s i' j' k' Hin') as Hb'.
  rewrite !offset_wrap in E. apply wrap32_eq_mod in E.
  rewrite !Z.mod_small in E by lia. exact E.
Qed.

Lemma C5_offset_injective_witness :
  in_bounds (after_init zeros 2 3 4 initial_state) 1 2 3
  /\ in_bounds (after_init zeros 2 3 4 initial_state) 1 2 3
  /\ (1, 2, 3) = (1, 2, 3).
Proof.
  assert (Hin : in_bounds (after_init zeros 2 3 4 initial_state) 1 2 3).
  { unfold in_bounds. simpl. lia. }
  split; [exact Hin|]. split; [exact Hin|].
  apply (proj2 (C5_offset_injective _ 1 2 3 1 2 3 Hin Hin)).
  - unfold modulus. rewrite volume_after_init. lia.
  - reflexivity.
Defined.

(** C5, as stated, fails on the expression the code evaluates: with extents
    (2, 65536, 65536) the coordinates (0,0,0) and (1,0,0) are distinct, both
    inside the bounds, and both get offset 0, since [1 * 65536 * 65536]
    is [2^32]. *)
Lemma C5_offset_injective_counterexample :
  in_bounds (after_init zeros 2 65536 65536 initial_state) 0 0 0
  /\ in_bounds (after_init zeros 2 65536 65536 initial_state) 1 0 0
  /\ (0, 0, 0) <> (1, 0, 0)
  /\ offset (after_init zeros 2 65536 65536 initial_state) 0 0 0 = 0
  /\ offset (after_init zeros 2 65536 65536 initial_state) 1 0 0 = 0.
Proof.
  split; [unfold in_bounds; simpl; lia|].
  split; [unfold in_bounds; simpl; lia|].
  split; [discriminate|].
  split; reflexivity.
Qed.

(** C6, as amended. On an initialized buffer whose cell count
    [width*height*depth] is below [2^31], every coordinate inside the bounds
    has an offset with [0 <= offset < width*height*depth], the storage has
    exactly that many cells, and both [get] and [set] are defined there: the
    out-of-range branch is not taken. *)
Theorem C6_offset_in_range (s : state) (i j k : Z) :
  initialized s -> volume s < half_modulus -> in_bounds s i j k ->
  0 <= offset s i j k < volume s
  /\ extent_product s = volume s
  /\ holds_cells s (volume s)
  /\ (exists b, getNativeFlatArray i j k s = Some (b, s))
  /\ (forall v, exists s', setNativeFlatArray i j k v s = Some (tt, s')).
Proof.
  intros Hinit Hvol Hin.
  destruct (in_bounds_in_range s i j k Hinit Hvol Hin) as (_ & l & Hd & Hlen & Hoff).
  pose proof (in_bounds_volume_pos s i j k Hin) as Hpos.
  split; [lia|].
  split; [apply extent_product_volume; lia|].
  split; [exists l; auto|].
  split.
  - rewrite get_run. destruct (load_in_range l _ s Hd Hoff) as (b & _ & E). eauto.
  - intros v. rewrite set_run, (store_in_range l _ v s Hd Hoff). eauto.
Qed.

Lemma C6_offset_in_range_witness :
  initialized (after_init zeros 2 3 4 initial_state)
  /\ in_bounds (after_init zeros 2 3 4 initial_state) 1 2 3
  /\ 0 <= offset (after_init zeros 2 3 4 initial_state) 1 2 3 < 24
  /\ exists b, getNativeFlatArray 1 2 3 (after_init zeros 2 3 4 initial_state)
               = Some (b, after_init zeros 2 3 4 initial_state).
Proof.
  assert (Hinit : initialized (after_init zeros 2 3 4 initial_state)).
  { apply after_init_initialized; apply small_int32; lia. }
  assert (Hin : in_bounds (after_init zeros 2 3 4 initial_state) 1 2 3).
  { unfold in_bounds. simpl. lia. }
  assert (Hvol : volume (after_init zeros 2 3 4 initial_state) < half_modulus).
  { rewrite volume_after_init. unfold half_modulus. lia. }
  destruct (C6_offset_in_range _ 1 2 3 Hinit Hvol Hin) as (Hoff & _ & _ & Hget & _).
  split; [exact Hinit|]. split; [exact Hin|]. split; [exact Hoff | exact Hget].
Defined.

(** C6, as stated, fails. After a successful [initialize(1, 65536, 65536)]
    the 32-bit product is 0 and the region has 0 bytes; the coordinate
    (0, 32768, 0) is inside the bounds, its offset [32768 * 65536] is
    [-2^31] as an [int], which is neither non-negative nor inside the region:
    [get] and [set] take the out-of-range branch. They also do after an
    [initialize(2,3,4)] whose allocation failed, for every coordinate. *)
Lemma C6_offset_in_range_counterexample :
  (initialized (after_init zeros 1 65536 65536 initial_state)
   /\ in_bounds (after_init zeros 1 65536 65536 initial_state) 0 32768 0
   /\ data (after_init zeros 1 65536 65536 initial_state) = Some []
   /\ offset (after_init zeros 1 65536 65536 initial_state) 0 32768 0 = -2147483648
   /\ ~ (0 <= offset (after_init zeros 1 65536 65536 initial_state) 0 32768 0)
   /\ getNativeFlatArray 0 32768 0 (after_init zeros 1 65536 65536 initial_state) = None
   /\ setNativeFlatArray 0 32768 0 x07 (after_init zeros 1 65536 65536 initial_state) = None)
  /\ (in_bounds (after_init None 2 3 4 initial_state) 1 2 3
      /\ getNativeFlatArray 1 2 3 (after_init None 2 3 4 initial_state) = None
      /\ setNativeFlatArray 1 2 3 x07 (after_init None 2 3 4 initial_state) = None).
Proof.
  split.
  - split; [apply after_init_initialized; apply small_int32; lia|].
    split; [unfold in_bounds; simpl; lia|].
    split; [reflexivity|].
    assert (E : offset (after_init zeros 1 65536 65536 initial_state) 0 32768 0 = -2147483648)
      by reflexivity.
    split; [exact E|]. split; [rewrite E; lia|].
    split; reflexivity.
  - split; [unfold in_bounds; simpl; lia|]. split; reflexivity.
Qed.

(** C7. [initNativeFlatArray] validates nothing and never signals failure:
    for every triple [(w,h,d)], negative values included, and whatever
    [malloc] does, it returns normally with the extents set to [w], [h], [d].
    No entry point returns an error value: [get] and [set] have a result
    whenever the access falls inside the region (outside it the access is
    not defined at all), and every byte is an ordinary result of [get]. *)
Theorem C7_never_signals_failure :
  (forall a w h d s,
      exists s', initNativeFlatArray a w h d s = Some (tt, s')
                 /\ width s' = w /\ height s' = h /\ depth s' = d)
  /\ (forall i j k s,
        getNativeFlatArray i j k s = None <-> ~ in_range s (offset s i j k))
  /\ (forall i j k v s,
        setNativeFlatArray i j k v s = None <-> ~ in_range s (offset s i j k))
  /\ (forall b, exists s, initialized s /\ getNativeFlatArray 0 0 0 s = Some (b, s)).
Proof.
  repeat apply conj.
  - intros a w h d s. exists (after_init a w h d s). auto using after_init_run.
  - intros i j k s. rewrite get_run. apply load_None.
  - intros i j k v s. rewrite set_run. apply store_None.
  - intros b. exists (after_init (Some (fun _ => b)) 1 1 1 initial_state).
    split; [apply after_init_initialized; apply small_int32; lia | reflexivity].
Qed.

Lemma C7_never_signals_failure_witness :
  exists s', initNativeFlatArray None (-1) (-2) (-3) initial_state = Some (tt, s')
             /\ width s' = -1 /\ height s' = -2 /\ depth s' = -3.
Proof.
  exact (proj1 C7_never_signals_failure None (-1) (-2) (-3) initial_state).
Defined.

(** C8. [getNativeFlatArray] changes nothing: whenever it returns, the state
    after the call is the state before it, so [width], [height], [depth] and
    every storage element are as they were. *)
Theorem C8_get_is_pure (s : state) (i j k : Z) (b : byte) (s' : state) :
  getNativeFlatArray i j k s = Some (b, s') ->
  s' = s
  /\ width s' = width s /\ height s' = height s /\ depth s' = depth s
  /\ data s' = data s.
Proof.
  intros E. apply get_state in E. subst s'. auto.
Qed.

Lemma C8_get_is_pure_witness :
  getNativeFlatArray 1 2 3 (after_init ones 2 3 4 initial_state)
    = Some (xff, after_init ones 2 3 4 initial_state)
  /\ data (after_init ones 2 3 4 initial_state) = data (after_init ones 2 3 4 initial_state).
Proof.
  assert (E : getNativeFlatArray 1 2 3 (after_init ones 2 3 4 initial_state)
              = Some (xff, after_init ones 2 3 4 initial_state)) by reflexivity.
  split; [exact E|].
  apply (C8_get_is_pure _ 1 2 3 xff _ E).
Defined.

(** C9, as amended. On an initialized buffer whose cell count
    [width*height*depth] is below [2^31], for a coordinate inside the bounds
    [set(i,j,k,v)] changes only the storage element at offset
    [k + j*depth + i*depth*height]: [width], [height], [depth] and every
    other element stay as they were, and a [get] at any other coordinate
    inside the bounds returns the value it returned before the [set]. *)
Theorem C9_set_single_cell (s : state) (i j k : Z) (v : byte) :
  initialized s -> volume s < half_modulus -> in_bounds s i j k ->
  exists l s',
    data s = Some l
    /\ setNativeFlatArray i j k v s = Some (tt, s')
    /\ width s' = width s /\ height s' = height s /\ depth s' = depth s
    /\ data s' = Some (<[Z.to_nat (k + j * depth s + i * depth s * height s) := v]> l)
    /\ (forall l' n, data s' = Some l' ->
          n <> Z.to_nat (k + j * depth s + i * depth s * height s) -> l' !! n = l !! n)
    /\ (forall i' j' k', in_bounds s i' j' k' -> (i', j', k') <> (i, j, k) ->
          exists b, getNativeFlatArray i' j' k' s = Some (b, s)
                    /\ getNativeFlatArray i' j' k' s' = Some (b, s')).
Proof.
  intros Hinit Hvol Hin.
  destruct (in_bounds_in_range s i j k Hinit Hvol Hin) as (Hex & l & Hd & Hlen & Hoff).
  fold (offset_Z s i j k). rewrite <- Hex.
  exists l. eexists. split; [exact Hd|].
  split; [rewrite set_run; apply (store_in_range l _ v s Hd Hoff)|].
  simpl. repeat (split; [reflexivity|]). split.
  - intros l' n [= <-] Hn. apply list_lookup_insert_ne. congruence.
  - intros i' j' k' Hin' Hne.
    destruct (in_bounds_in_range s i' j' k' Hinit Hvol Hin')
      as (Hex' & l0 & Hd0 & _ & Hoff').
    rewrite Hd in Hd0. injection Hd0 as <-.
    destruct (load_in_range l _ s Hd Hoff') as (b & Hb & Hload).
    exists b. split; [rewrite get_run; exact Hload|].
    rewrite get_run. unfold offset at 1. simpl. fold (offset s i' j' k').
    unfold load. simpl. rewrite bool_decide_eq_true_2 by lia.
    rewrite list_lookup_insert_ne, Hb; [reflexivity|].
    intros Heq. apply Hne.
    assert (E : offset_Z s i' j' k' = offset_Z s i j k) by lia.
    destruct (offset_Z_inj s i' j' k' i j k Hin' Hin E) as (-> & -> & ->). reflexivity.
Qed.

Lemma C9_set_single_cell_witness :
  initialized (after_init zeros 2 3 4 initial_state)
  /\ in_bounds (after_init zeros 2 3 4 initial_state) 1 2 3
  /\ exists l s',
      data (after_init zeros 2 3 4 initial_state) = Some l
      /\ setNativeFlatArray 1 2 3 x07 (after_init zeros 2 3 4 initial_state) = Some (tt, s')
      /\ data s' = Some (<[23%nat := x07]> l).
Proof.
  assert (Hinit : initialized (after_init zeros 2 3 4 initial_state)).
  { apply after_init_initialized; apply small_int32; lia. }
  assert (Hin : in_bounds (after_init zeros 2 3 4 initial_state) 1 2 3).
  { unfold in_bounds. simpl. lia. }
  assert (Hvol : volume (after_init zeros 2 3 4 initial_state) < half_modulus).
  { rewrite volume_after_init. unfold half_modulus. lia. }
  split; [exact Hinit|]. split; [exact Hin|].
  destruct (C9_set_single_cell _ 1 2 3 x07 Hinit Hvol Hin)
    as (l & s' & Hd & Hset & _ & _ & _ & Hd' & _).
  exists l, s'. split; [exact Hd|]. split; [exact Hset | exact Hd'].
Defined.

(** C9, as stated, fails. After a successful [initialize(3, 1431655766, 1)]
    the region has 2 bytes (the 32-bit value of [2^32 + 2]); the coordinates
    (0,0,0) and (2,1431655764,0) are distinct and inside the bounds, and
    both have offset 0 ([1431655764 + 2 * 1431655766] is [2^32]): a [set]
    at the second changes what [get] returns at the first. *)
Lemma C9_set_single_cell_counterexample :
  initialized (after_init zeros 3 1431655766 1 initial_state)
  /\ in_bounds (after_init zeros 3 1431655766 1 initial_state) 0 0 0
  /\ in_bounds (after_init zeros 3 1431655766 1 initial_state) 2 1431655764 0
  /\ (0, 0, 0) <> (2, 1431655764, 0)
  /\ getNativeFlatArray 0 0 0 (after_init zeros 3 1431655766 1 initial_state)
     = Some (x00, after_init zeros 3 1431655766 1 initial_state)
  /\ (setNativeFlatArray 2 1431655764 0 xff ;; getNativeFlatArray 0 0 0)
       (after_init zeros 3 1431655766 1 initial_state)
     = Some (xff, {| data := Some [xff; x00];
                     width := 3; height := 1431655766; depth := 1 |}).
Proof.
  split; [apply after_init_initialized; apply small_int32; lia|].
  split; [unfold in_bounds; simpl; lia|].
  split; [unfold in_bounds; simpl; lia|].
  split; [discriminate|].
  split; reflexivity.
Qed.

(** C10, as amended. [get] and [set] are deterministic: two runs from the
    same state with the same arguments end in the same state and return the
    same byte. Two runs of [initialize] from the same state with the same
    arguments agree on the result, on the extents and, when both
    allocations succeed, on the length of the storage; whether the
    allocation succeeds and what the new storage contains is decided by
    [malloc], not by the arguments and the state. *)
Theorem C10_deterministic (s : state) (c : call) (r1 r2 : result) (s1 s2 : state) :
  step s c r1 s1 -> step s c r2 s2 ->
  r1 = r2
  /\ width s1 = width s2 /\ height s1 = height s2 /\ depth s1 = depth s2
  /\ (forall l1 l2, data s1 = Some l1 -> data s2 = Some l2 -> length l1 = length l2)
  /\ ((forall w h d, c <> Init w h d) -> s1 = s2).
Proof.
  intros H1 H2.
  destruct H1 as [a1 s w h d s1 _ _ _ E1 | s i j k b1 s1 _ _ _ E1 | s i j k v s1 _ _ _ E1];
    inversion H2 as [a2 ? ? ? ? ? _ _ _ E2 | ? ? ? ? b2 ? _ _ _ E2 | ? ? ? ? ? ? _ _ _ E2];
    subst.
  - pose proof (init_storage_inv _ _ _ _ _ _ E1) as I1.
    pose proof (init_storage_inv _ _ _ _ _ _ E2) as I2.
    rewrite init_run in E1, E2. injection E1 as <-. injection E2 as <-.
    repeat (split; [reflexivity|]). split.
    + intros l1 l2 D1 D2. specialize (I1 l1 D1). specialize (I2 l2 D2).
      change (extent_product _) with (mul32 (mul32 w h) d) in I1, I2. lia.
    + intros Hc. destruct (Hc w h d eq_refl).
  - rewrite E1 in E2. injection E2 as <- <-. repeat split; auto. congruence.
  - rewrite E1 in E2. injection E2 as <-. repeat split; auto. congruence.
Qed.

Lemma C10_deterministic_witness :
  step (after_init zeros 2 3 4 initial_state) (Get 1 2 3) (RByte x00)
       (after_init zeros 2 3 4 initial_state)
  /\ RByte x00 = RByte x00
  /\ after_init zeros 2 3 4 initial_state = after_init zeros 2 3 4 initial_state.
Proof.
  assert (H : step (after_init zeros 2 3 4 initial_state) (Get 1 2 3) (RByte x00)
                   (after_init zeros 2 3 4 initial_state)).
  { apply step_get; try (apply small_int32; lia). reflexivity. }
  split; [exact H|].
  destruct (C10_deterministic _ _ _ _ _ _ H H) as (Hr & _ & _ & _ & _ & Hs).
  split; [exact Hr|]. apply Hs. discriminate.
Defined.

(** C10, as stated, fails for [initialize]. Two runs of [initialize(1,1,1)]
    from the initial state end in different states when [malloc] hands out
    regions with different contents (and a following [get(0,0,0)] returns
    different bytes), or when it succeeds in one run and fails in the
    other. *)
Lemma C10_deterministic_counterexample :
  step initial_state (Init 1 1 1) RVoid (after_init zeros 1 1 1 initial_state)
  /\ step initial_state (Init 1 1 1) RVoid (after_init ones 1 1 1 initial_state)
  /\ step initial_state (Init 1 1 1) RVoid (after_init None 1 1 1 initial_state)
  /\ after_init zeros 1 1 1 initial_state <> after_init ones 1 1 1 initial_state
  /\ after_init zeros 1 1 1 initial_state <> after_init None 1 1 1 initial_state
  /\ getNativeFlatArray 0 0 0 (after_init zeros 1 1 1 initial_state)
     = Some (x00, after_init zeros 1 1 1 initial_state)
  /\ getNativeFlatArray 0 0 0 (after_init ones 1 1 1 initial_state)
     = Some (xff, after_init ones 1 1 1 initial_state).
Proof.
  split; [apply (step_init zeros); try (apply small_int32; lia); apply after_init_run|].
  split; [apply (step_init ones); try (apply small_int32; lia); apply after_init_run|].
  split; [apply (step_init None); try (apply small_int32; lia); apply after_init_run|].
  repeat apply conj; try reflexivity; discriminate.
Qed.

(** ** Further properties of the entry points *)

Section Composition.

Lemma offset_same_extents s s' i j k :
  height s' = height s -> depth s' = depth s -> offset s' i j k = offset s i j k.
Proof. unfold offset. intros -> ->. reflexivity. Qed.

Lemma store_store off v1 v2 s :
  (store off v1 ;; store off v2) s = store off v2 s.
Proof.
  unfold bind, store. destruct (data s) as [l|]; [|reflexivity].
  case_bool_decide as Hoff; [|reflexivity]. simpl.
  rewrite length_insert, bool_decide_eq_true_2 by exact Hoff. simpl.
  rewrite list_insert_insert_eq. reflexivity.
Qed.

Lemma store_commute off1 off2 v1 v2 s :
  off1 <> off2 ->
  (store off1 v1 ;; store off2 v2) s = (store off2 v2 ;; store off1 v1) s.
Proof.
  intros Hne. unfold bind, store. destruct (data s) as [l|]; [|reflexivity].
  do 2 case_bool_decide; simpl; rewrite ?length_insert;
    repeat case_bool_decide; try lia; try reflexivity.
  rewrite list_insert_insert_ne by lia. reflexivity.
Qed.

(** The state a defined write leaves, and what reads see in it. *)
Lemma set_in_bounds s i j k v :
  initialized s -> volume s < half_modulus -> in_bounds s i j k ->
  exists s1,
    setNativeFlatArray i j k v s = Some (tt, s1)
    /\ initialized s1
    /\ width s1 = width s /\ height s1 = height s /\ depth s1 = depth s
    /\ getNativeFlatArray i j k s1 = Some (v, s1)
    /\ (forall i' j' k', in_bounds s i' j' k' -> (i', j', k') <> (i, j, k) ->
          exists b, getNativeFlatArray i' j' k' s = Some (b, s)
                    /\ getNativeFlatArray i' j' k' s1 = Some (b, s1)).
Proof.
  intros Hinit Hvol Hin.
  destruct (in_bounds_in_range s i j k Hinit Hvol Hin) as (Hex & l & Hd & Hlen & Hoff).
  pose proof (store_in_range l _ v s Hd Hoff) as Hset. rewrite <- set_run in Hset.
  eexists. split; [exact Hset|].
  split; [exact (initialized_set s i j k v _ Hinit Hset)|].
  simpl. repeat (split; [reflexivity|]). split.
  - rewrite get_run. unfold offset at 1. simpl. fold (offset s i j k).
    unfold load. simpl. rewrite bool_decide_eq_true_2 by lia.
    rewrite list_lookup_insert_eq by lia. reflexivity.
  - intros i' j' k' Hin' Hne.
    destruct (in_bounds_in_range s i' j' k' Hinit Hvol Hin')
      as (Hex' & l0 & Hd0 & _ & Hoff').
    rewrite Hd in Hd0. injection Hd0 as <-.
    destruct (load_in_range l _ s Hd Hoff') as (b & Hb & Hload).
    exists b. split; [rewrite get_run; exact Hload|].
    rewrite get_run. unfold offset at 1. simpl. fold (offset s i' j' k').
    unfold load. simpl. rewrite bool_decide_eq_true_2 by lia.
    rewrite list_lookup_insert_ne, Hb; [reflexivity|].
    intros Heq. apply Hne.
    assert (E : offset_Z s i' j' k' = offset_Z s i j k) by lia.
    destruct (offset_Z_inj s i' j' k' i j k Hin' Hin E) as (-> & -> & ->). reflexivity.
Qed.

Lemma grid_2_3_4_initialized : initialized (after_init zeros 2 3 4 initial_state).
Proof. apply after_init_initialized; apply small_int32; lia. Qed.

Lemma grid_2_3_4_volume : volume (after_init zeros 2 3 4 initial_state) < half_modulus.
Proof. rewrite volume_after_init. unfold half_modulus. lia. Qed.

End Composition.

(** X1. Two writes to the same coordinate amount to the second one alone, in
    every state: the first value is overwritten, and where the first write is
    not defined the second is not either. *)
Theorem X1_set_set_overwrites (s : state) (i j k : Z) (v1 v2 : byte) :
  (setNativeFlatArray i j k v1 ;; setNativeFlatArray i j k v2) s
  = setNativeFlatArray i j k v2 s.
Proof.
  rewrite (set_run i j k v2 s), <- (store_store (offset s i j k) v1 v2 s).
  unfold bind. rewrite set_run. destruct (store (offset s i j k) v1 s) as [[u s1]|] eqn:E; [|reflexivity].
  apply store_inv in E as (l & _ & _ & ->). reflexivity.
Qed.

(** X2. Writes to two coordinates with different offsets commute: done in
    either order they leave the same state, or are undefined in both
    orders. *)
Theorem X2_set_commute (s : state) (i j k i' j' k' : Z) (v v' : byte) :
  offset s i j k <> offset s i' j' k' ->
  (setNativeFlatArray i j k v ;; setNativeFlatArray i' j' k' v') s
  = (setNativeFlatArray i' j' k' v' ;; setNativeFlatArray i j k v) s.
Proof.
  intros Hne. unfold bind.
  rewrite (set_run i j k v s), (set_run i' j' k' v' s).
  pose proof (store_commute _ _ v v' s Hne) as Hc. unfold bind in Hc.
  destruct (store (offset s i j k) v s) as [[u s1]|] eqn:E1;
    destruct (store (offset s i' j' k') v' s) as [[u' s2]|] eqn:E2;
    try reflexivity.
  - apply store_inv in E1 as (l & _ & _ & ->). apply store_inv in E2 as (l' & _ & _ & ->).
    exact Hc.
  - apply store_inv in E1 as (l & _ & _ & ->). exact Hc.
  - apply store_inv in E2 as (l' & _ & _ & ->). exact Hc.
Qed.

Lemma X2_set_commute_witness :
  (setNativeFlatArray 0 0 1 x01 ;; setNativeFlatArray 1 2 3 x07)
    (after_init zeros 2 3 4 initial_state)
  = (setNativeFlatArray 1 2 3 x07 ;; setNativeFlatArray 0 0 1 x01)
    (after_init zeros 2 3 4 initial_state).
Proof.
  apply (X2_set_commute _ 0 0 1 1 2 3 x01 x07). vm_compute. discriminate.
Defined.

(** X3. Writing back the byte that [get] returns at a coordinate changes
    nothing: the state after the write is the state before it. *)
Theorem X3_set_of_get_is_identity (s : state) (i j k : Z) (b : byte) (s' : state) :
  getNativeFlatArray i j k s = Some (b, s') ->
  setNativeFlatArray i j k b s = Some (tt, s).
Proof.
  rewrite get_run, set_run. intros E.
  apply load_inv in E as (_ & l & Hd & Hoff & Hb).
  rewrite (store_in_range l _ b s Hd Hoff), (list_insert_id _ _ _ Hb), <- Hd.
  destruct s; reflexivity.
Qed.

Lemma X3_set_of_get_is_identity_witness :
  setNativeFlatArray 1 2 3 xff (after_init ones 2 3 4 initial_state)
  = Some (tt, after_init ones 2 3 4 initial_state).
Proof.
  apply (X3_set_of_get_is_identity _ 1 2 3 xff (after_init ones 2 3 4 initial_state)).
  reflexivity.
Defined.

(** X4. The round trip holds exactly where the access is inside the region:
    in every state, [set(i,j,k,v)] followed by [get(i,j,k)] returns [v] if
    and only if the offset of [(i,j,k)] falls inside the storage, whether or
    not the coordinate is inside the extents. *)
Theorem X4_round_trip_iff_in_range (s : state) (i j k : Z) (v : byte) :
  round_trip s i j k v <-> in_range s (offset s i j k).
Proof.
  unfold round_trip, bind. rewrite set_run. split.
  - intros [s' E]. destruct (store (offset s i j k) v s) as [[u s1]|] eqn:Es; [|discriminate].
    apply store_inv in Es as (l & Hd & Hoff & _). exists l. auto.
  - intros (l & Hd & Hoff). rewrite (store_in_range l _ v s Hd Hoff).
    rewrite get_run. unfold offset at 1. simpl. fold (offset s i j k).
    eexists. unfold load. simpl. rewrite bool_decide_eq_true_2 by lia.
    rewrite list_lookup_insert_eq by lia. reflexivity.
Qed.

Lemma X4_round_trip_iff_in_range_witness :
  round_trip (after_init zeros 2 3 4 initial_state) 0 0 23 x07.
Proof.
  apply (proj2 (X4_round_trip_iff_in_range _ 0 0 23 x07)).
  exists (replicate 24 x00). split; [reflexivity|]. change (0 <= 23 < 24). lia.
Defined.

Section Addressing.

Lemma offset_congr s i j k i' j' k' :
  offset_Z s i j k = offset_Z s i' j' k' -> offset s i j k = offset s i' j' k'.
Proof. intros E. rewrite !offset_wrap, E. reflexivity. Qed.

Lemma in_bounds_offset_exact s i j k :
  volume s < half_modulus -> in_bounds s i j k -> offset s i j k = offset_Z s i j k.
Proof.
  intros Hvol Hin. pose proof (offset_Z_bounds s i j k Hin).
  apply offset_exact. unfold int32, half_modulus in *. lia.
Qed.

Lemma digit_lt d a b a' b' :
  0 <= a < d -> 0 <= a' -> b < b' -> a + b * d < a' + b' * d.
Proof. intros Ha Ha' Hb. nia. Qed.

Lemma offset_Z_lex s i j k i' j' k' :
  in_bounds s i j k -> in_bounds s i' j' k' ->
  lex_lt (i, j, k) (i', j', k') -> offset_Z s i j k < offset_Z s i' j' k'.
Proof.
  unfold in_bounds, offset_Z, lex_lt. intros (Hi & Hj & Hk) (Hi' & Hj' & Hk') Hlex.
  replace (k + j * depth s + i * depth s * height s)
    with (k + (j + i * height s) * depth s) by lia.
  replace (k' + j' * depth s + i' * depth s * height s)
    with (k' + (j' + i' * height s) * depth s) by lia.
  destruct Hlex as [Hlt | [-> [Hlt | [-> Hlt]]]].
  - apply digit_lt; [lia | lia |]. apply digit_lt; lia.
  - apply digit_lt; lia.
  - lia.
Qed.

Lemma cell_coords_in_bounds s n :
  0 < width s -> 0 < height s -> 0 < depth s -> 0 <= n < volume s ->
  in_bounds s (n / (depth s * height s)) ((n / depth s) mod height s) (n mod depth s)
  /\ offset_Z s (n / (depth s * height s)) ((n / depth s) mod height s) (n mod depth s) = n.
Proof.
  unfold in_bounds, offset_Z, volume. intros Hw Hh Hd Hn.
  assert (Hdh : 0 < depth s * height s) by nia.
  pose proof (Z.mod_pos_bound n (depth s) Hd) as Hk.
  pose proof (Z.mod_pos_bound (n / depth s) (height s) Hh) as Hj.
  assert (Hq : n / (depth s * height s) = n / depth s / height s)
    by (symmetry; apply Z.div_div; lia).
  pose proof (Z.div_mod n (depth s) ltac:(lia)) as En.
  pose proof (Z.div_mod (n / depth s) (height s) ltac:(lia)) as Eq.
  split.
  - split; [|split; assumption]. split.
    + apply Z.div_pos; lia.
    + apply Z.div_lt_upper_bound; [exact Hdh | nia].
  - rewrite Hq. nia.
Qed.

End Addressing.

(** X5. The entry points check no axis: a coordinate that runs past the
    depth, or past the height, addresses the cell of the coordinate carried
    into the next axis. In every state [get] and [set] at [(i, j, k + depth)]
    are [get] and [set] at [(i, j + 1, k)], and at [(i, j + height, k)] they
    are those at [(i + 1, j, k)]. *)
Theorem X5_axis_carry (s : state) (i j k : Z) (v : byte) :
  getNativeFlatArray i j (k + depth s) s = getNativeFlatArray i (j + 1) k s
  /\ getNativeFlatArray i (j + height s) k s = getNativeFlatArray (i + 1) j k s
  /\ setNativeFlatArray i j (k + depth s) v s = setNativeFlatArray i (j + 1) k v s
  /\ setNativeFlatArray i (j + height s) k v s = setNativeFlatArray (i + 1) j k v s.
Proof.
  assert (E1 : offset s i j (k + depth s) = offset s i (j + 1) k)
    by (apply offset_congr; unfold offset_Z; lia).
  assert (E2 : offset s i (j + height s) k = offset s (i + 1) j k)
    by (apply offset_congr; unfold offset_Z; lia).
  rewrite !get_run, !set_run, E1, E2. auto.
Qed.

(** X6. After a successful [initNativeFlatArray(w,h,d)] with [w*h*d < 2^31],
    [get] at a coordinate inside the bounds returns the byte [malloc] left at
    offset [k + j*d + i*d*h]: the cells are not zeroed, and nothing of the
    previous buffer or of writes made to it is kept. *)
Theorem X6_get_after_init (fill : nat -> byte) (s : state) (w h d i j k : Z) :
  0 <= i < w -> 0 <= j < h -> 0 <= k < d -> w * h * d < half_modulus ->
  getNativeFlatArray i j k (after_init (Some fill) w h d s)
  = Some (fill (Z.to_nat (k + j * d + i * d * h)), after_init (Some fill) w h d s).
Proof.
  intros Hi Hj Hk Hvol.
  assert (Hin : in_bounds (after_init (Some fill) w h d s) i j k)
    by (change (0 <= i < w /\ 0 <= j < h /\ 0 <= k < d); auto).
  pose proof (offset_Z_bounds _ i j k Hin) as Hoff.
  rewrite volume_after_init in Hoff.
  rewrite get_run, in_bounds_offset_exact by assumption.
  change (offset_Z (after_init (Some fill) w h d s) i j k) with (k + j * d + i * d * h) in *.
  unfold load. rewrite data_after_init, size_exact by lia. unfold block.
  rewrite bool_decide_eq_true_2 by lia.
  rewrite list_lookup_fmap, lookup_seq_lt by lia. reflexivity.
Qed.

Lemma X6_get_after_init_witness :
  (setNativeFlatArray 1 2 3 x07 ;; initNativeFlatArray ones 2 3 4 ;; getNativeFlatArray 1 2 3)
    (after_init zeros 2 3 4 initial_state)
  = Some (xff, after_init ones 2 3 4 initial_state).
Proof.
  change (getNativeFlatArray 1 2 3 (after_init ones 2 3 4
            {| data := Some (<[23%nat := x07]> (replicate 24 x00));
               width := 2; height := 3; depth := 4 |})
          = Some (xff, after_init ones 2 3 4 initial_state)).
  rewrite (X6_get_after_init (fun _ => xff) _ 2 3 4 1 2 3);
    [reflexivity | lia | lia | lia | unfold half_modulus; lia].
Defined.

(** X7. When one of the extents is 0 the buffer has no cell: after
    [initNativeFlatArray], successful or not, every [get] and every [set]
    is an access outside the storage, whatever the coordinate. *)
Theorem X7_empty_grid (a : allocator) (s : state) (w h d i j k : Z) (v : byte) :
  w = 0 \/ h = 0 \/ d = 0 ->
  getNativeFlatArray i j k (after_init a w h d s) = None
  /\ setNativeFlatArray i j k v (after_init a w h d s) = None.
Proof.
  intros Hz.
  assert (Hsize : to_size_t (mul32 (mul32 w h) d) = 0).
  { unfold mul32 at 2. rewrite mul32_wrap_l.
    replace (w * h * d) with 0 by (destruct Hz as [-> | [-> | ->]]; lia). reflexivity. }
  assert (Hout : forall off, ~ in_range (after_init a w h d s) off).
  { intros off (l & Hd & Hoff). rewrite data_after_init, Hsize in Hd.
    destruct a as [fill|]; [|discriminate]. injection Hd as <-. simpl in Hoff. lia. }
  rewrite get_run, set_run. split; [apply load_None | apply store_None]; apply Hout.
Qed.

Lemma X7_empty_grid_witness :
  getNativeFlatArray 0 0 0 (after_init zeros 5 0 7 initial_state) = None
  /\ setNativeFlatArray 0 0 0 x07 (after_init zeros 5 0 7 initial_state) = None.
Proof.
  apply (X7_empty_grid zeros initial_state 5 0 7 0 0 0 x07). right. left. reflexivity.
Defined.

Section Lifecycle.

Lemma initialized_data s : initialized s -> is_Some (data s).
Proof. intros H. destruct (initialized_holds s H) as (l & -> & _). eauto. Qed.

Lemma reachable_data_initialized s : reachable s -> is_Some (data s) -> initialized s.
Proof.
  induction 1 as [|s c r s' _ IH Hstep]; intros Hsome.
  - destruct Hsome as [l Hl]. discriminate.
  - destruct Hstep as [a s w h d s' Hw Hh Hd E | s i j k b s' _ _ _ E | s i j k v s' _ _ _ E].
    + destruct a as [fill|].
      * exact (initialized_init fill s w h d s' Hw Hh Hd E).
      * rewrite init_run in E. injection E as <-. destruct Hsome as [l Hl]. discriminate.
    + apply get_state in E as ->. auto.
    + apply (initialized_set s i j k v s'); [|exact E].
      apply IH. rewrite set_run in E. apply store_inv in E as (l & -> & _). eauto.
Qed.

Lemma grid_2_3_4_reachable : reachable (after_init zeros 2 3 4 initial_state).
Proof.
  apply (reachable_step initial_state (Init 2 3 4) RVoid); [apply reachable_start|].
  apply (step_init zeros); try (apply small_int32; lia). apply after_init_run.
Qed.

End Lifecycle.

(** X8. In a state the program can reach, the storage pointer is non-null
    exactly when the latest [initNativeFlatArray] obtained a region from
    [malloc]; so a [get] or a [set] is defined only then: never before the
    first call of [initNativeFlatArray], and never after one whose
    allocation failed. *)
Theorem X8_access_needs_successful_init (s : state) :
  reachable s ->
  (is_Some (data s) <-> initialized s)
  /\ (forall i j k b s', getNativeFlatArray i j k s = Some (b, s') -> initialized s)
  /\ (forall i j k v s', setNativeFlatArray i j k v s = Some (tt, s') -> initialized s).
Proof.
  intros Hreach. split; [|split].
  - split; [apply reachable_data_initialized, Hreach | apply initialized_data].
  - intros i j k b s' E. apply reachable_data_initialized; [exact Hreach|].
    rewrite get_run in E. apply load_inv in E as (_ & l & -> & _). eauto.
  - intros i j k v s' E. apply reachable_data_initialized; [exact Hreach|].
    rewrite set_run in E. apply store_inv in E as (l & -> & _). eauto.
Qed.

Lemma X8_access_needs_successful_init_witness :
  reachable (after_init zeros 2 3 4 initial_state)
  /\ initialized (after_init zeros 2 3 4 initial_state).
Proof.
  split; [exact grid_2_3_4_reachable|].
  destruct (X8_access_needs_successful_init _ grid_2_3_4_reachable) as (_ & Hget & _).
  apply (Hget 1 2 3 x00 (after_init zeros 2 3 4 initial_state)). reflexivity.
Defined.

(** X9. The size passed to [malloc] is an [int] converted to a 64-bit
    [size_t], so in a reachable state the storage never has between [2^31]
    and [2^64 - 2^31 - 1] bytes: it is shorter than [2^31], or it is the
    result of a request of at least [2^64 - 2^31] bytes (a negative
    product). *)
Theorem X9_storage_size_gap (s : state) (l : list byte) :
  reachable s -> data s = Some l ->
  Z.of_nat (length l) < 2 ^ 31 \/ 2 ^ 64 - 2 ^ 31 <= Z.of_nat (length l).
Proof.
  intros Hreach Hd. rewrite (reachable_storage_inv s Hreach l Hd).
  pose proof (mul32_range (mul32 (width s) (height s)) (depth s)) as Hr.
  fold (extent_product s) in Hr. unfold int32, half_modulus in Hr. unfold to_size_t.
  destruct (Z_lt_le_dec (extent_product s) 0) as [Hneg|Hpos].
  - right. rewrite <- (Z_mod_plus_full _ 1). rewrite Z.mod_small; lia.
  - left. rewrite Z.mod_small; lia.
Qed.

Lemma X9_storage_size_gap_witness :
  Z.of_nat (length (replicate 24 x00)) < 2 ^ 31
  \/ 2 ^ 64 - 2 ^ 31 <= Z.of_nat (length (replicate 24 x00)).
Proof.
  exact (X9_storage_size_gap (after_init zeros 2 3 4 initial_state) (replicate 24 x00)
           grid_2_3_4_reachable eq_refl).
Defined.

(** X10. Addressing is onto: in a grid with positive extents every linear
    index [n] below [width*height*depth] is the offset of the coordinate
    [(n / (depth*height), (n / depth) mod height, n mod depth)], which is
    inside the bounds; below [2^31] cells this is the offset the code
    computes. Conversely that decoding gives back every coordinate inside
    the bounds from its offset. *)
Theorem X10_cell_coords_round_trip (s : state) :
  (forall n i j k,
      0 < width s -> 0 < height s -> 0 < depth s -> 0 <= n < volume s ->
      cell_coords s n = (i, j, k) ->
      in_bounds s i j k /\ offset_Z s i j k = n
      /\ (volume s < half_modulus -> offset s i j k = n))
  /\ (forall i j k,
        in_bounds s i j k -> cell_coords s (offset_Z s i j k) = (i, j, k)).
Proof.
  split.
  - intros n i j k Hw Hh Hd Hn [= <- <- <-].
    destruct (cell_coords_in_bounds s n Hw Hh Hd Hn) as [Hin E].
    split; [exact Hin|]. split; [exact E|].
    intros Hvol. rewrite in_bounds_offset_exact by assumption. exact E.
  - intros i j k Hin.
    pose proof (offset_Z_bounds s i j k Hin) as Hoff.
    destruct Hin as (Hi & Hj & Hk).
    destruct (cell_coords_in_bounds s (offset_Z s i j k)) as [Hin' E]; try lia.
    destruct (offset_Z_inj s _ _ _ i j k Hin' (conj Hi (conj Hj Hk)) E) as (E1 & E2 & E3).
    unfold cell_coords. rewrite E1, E2, E3. reflexivity.
Qed.

Lemma X10_cell_coords_round_trip_witness :
  cell_coords (after_init zeros 2 3 4 initial_state) 23 = (1, 2, 3)
  /\ offset (after_init zeros 2 3 4 initial_state) 1 2 3 = 23
  /\ cell_coords (after_init zeros 2 3 4 initial_state)
       (offset_Z (after_init zeros 2 3 4 initial_state) 1 2 3) = (1, 2, 3).
Proof.
  destruct (X10_cell_coords_round_trip (after_init zeros 2 3 4 initial_state)) as [Hdec Henc].
  split; [reflexivity|]. split.
  - apply (Hdec 23 1 2 3); try reflexivity; try exact grid_2_3_4_volume.
    rewrite volume_after_init. lia.
  - apply Henc. unfold in_bounds. simpl. lia.
Defined.

(** X11. Addressing is row-major: on a grid of fewer than [2^31] cells the
    offset grows strictly with the lexicographic order of the coordinates
    inside the bounds (first axis most significant, last axis fastest), so
    walking the storage in index order visits the coordinates in that
    order. *)
Theorem X11_offset_monotone (s : state) (i j k i' j' k' : Z) :
  volume s < half_modulus ->
  in_bounds s i j k -> in_bounds s i' j' k' ->
  lex_lt (i, j, k) (i', j', k') ->
  offset s i j k < offset s i' j' k'.
Proof.
  intros Hvol Hin Hin' Hlex.
  rewrite !in_bounds_offset_exact by assumption.
  apply offset_Z_lex; assumption.
Qed.

Lemma X11_offset_monotone_witness :
  offset (after_init zeros 2 3 4 initial_state) 0 2 3
  < offset (after_init zeros 2 3 4 initial_state) 1 0 0.
Proof.
  apply X11_offset_monotone.
  - exact grid_2_3_4_volume.
  - unfold in_bounds. simpl. lia.
  - unfold in_bounds. simpl. lia.
  - left. lia.
Defined.

(** X12. The buffer behaves as a map from coordinates to bytes: on an
    initialized buffer of fewer than [2^31] cells, any sequence of writes at
    coordinates inside the bounds is defined and leaves the extents alone,
    and afterwards [get] at a coordinate inside the bounds returns the byte
    of the latest write to that coordinate, or, if none of the writes went
    there, the byte it returned before. *)
Theorem X12_set_all_last_write_wins (ws : list cell_write) (s : state) (i j k : Z) :
  initialized s -> volume s < half_modulus ->
  Forall (write_in_bounds s) ws -> in_bounds s i j k ->
  exists s' b0,
    set_all ws s = Some (tt, s')
    /\ width s' = width s /\ height s' = height s /\ depth s' = depth s
    /\ getNativeFlatArray i j k s = Some (b0, s)
    /\ getNativeFlatArray i j k s' = Some (default b0 (last_write ws (i, j, k)), s').
Proof.
  revert s. induction ws as [|[[[wi wj] wk] wv] ws IH]; intros s Hinit Hvol Hws Hin.
  - destruct (in_bounds_in_range s i j k Hinit Hvol Hin) as (_ & l & Hd & _ & Hoff).
    destruct (load_in_range l _ s Hd Hoff) as (b0 & _ & Hload).
    exists s, b0. rewrite get_run. simpl. auto 10.
  - apply Forall_cons in Hws as [Hw Hws]. simpl in Hw.
    destruct (set_in_bounds s wi wj wk wv Hinit Hvol Hw)
      as (s1 & Hset & Hinit1 & Ew & Eh & Ed & Hsame & Hother).
    assert (Hext : forall a b c, in_bounds s a b c <-> in_bounds s1 a b c)
      by (intros; unfold in_bounds; rewrite Ew, Eh, Ed; reflexivity).
    assert (Hvol1 : volume s1 < half_modulus) by (unfold volume; rewrite Ew, Eh, Ed; exact Hvol).
    assert (Hws1 : Forall (write_in_bounds s1) ws).
    { clear -Hws Hext.
      induction Hws as [|[[[a b] c] v] ws' Hx _ IHws]; constructor;
        [apply Hext, Hx | exact IHws]. }
    destruct (IH s1 Hinit1 Hvol1 Hws1 (proj1 (Hext i j k) Hin))
      as (s' & b1 & Hrun & Ew' & Eh' & Ed' & Hget1 & Hget').
    destruct (in_bounds_in_range s i j k Hinit Hvol Hin) as (_ & l & Hd & _ & Hoff).
    destruct (load_in_range l _ s Hd Hoff) as (b0 & _ & Hload). rewrite <- get_run in Hload.
    exists s', b0.
    split; [simpl; unfold bind; rewrite Hset; exact Hrun|].
    do 3 (split; [congruence|]). split; [exact Hload|].
    rewrite Hget'. do 2 f_equal. simpl.
    destruct (last_write ws (i, j, k)) as [v'|]; [reflexivity|].
    case_decide as Hc; simpl.
    + injection Hc as -> -> ->. congruence.
    + destruct (Hother i j k Hin) as (b & Hb & Hb1); [congruence|]. congruence.
Qed.

Lemma X12_set_all_last_write_wins_witness :
  exists s',
    set_all [(1, 2, 3, x01); (0, 0, 0, x02); (1, 2, 3, x07)]
            (after_init zeros 2 3 4 initial_state) = Some (tt, s')
    /\ getNativeFlatArray 1 2 3 s' = Some (x07, s').
Proof.
  assert (Hin : in_bounds (after_init zeros 2 3 4 initial_state) 1 2 3)
    by (unfold in_bounds; simpl; lia).
  assert (H0 : in_bounds (after_init zeros 2 3 4 initial_state) 0 0 0)
    by (unfold in_bounds; simpl; lia).
  destruct (X12_set_all_last_write_wins
              [(1, 2, 3, x01); (0, 0, 0, x02); (1, 2, 3, x07)]
              (after_init zeros 2 3 4 initial_state) 1 2 3
              grid_2_3_4_initialized grid_2_3_4_volume)
    as (s' & b0 & Hrun & _ & _ & _ & _ & Hget); [|exact Hin|].
  - apply Forall_cons; split; [exact Hin|].
    apply Forall_cons; split; [exact H0|].
    apply Forall_cons; split; [exact Hin|]. apply Forall_nil_2.
  - exists s'. split; [exact Hrun | exact Hget].
Defined.
